(** * Shallow embedding of GrVertexWriter (src/gpu/GrVertexWriter.h) and of
    skgpu::mtl::RenderCommandEncoder
    (experimental/graphite/src/mtl/MtlRenderCommandEncoder.h). *)

From Stdlib Require Import ZArith List Bool Lia Strings.Byte.
Import ListNotations.
Open Scope Z_scope.

(** ** GrVertexWriter *)
Module VertexWriter.

(** Byte-addressed memory; addresses are the integer values of pointers. *)
Definition Mem := Z -> Byte.byte.

Definition upd (m : Mem) (a : Z) (b : Byte.byte) : Mem :=
  fun x => if Z.eqb x a then b else m x.

(** [memcpy(dst, src, n)] where [src] holds the bytes [src]. *)
Fixpoint memcpy (m : Mem) (dst : Z) (src : list Byte.byte) : Mem :=
  match src with
  | [] => m
  | b :: bs => memcpy (upd m dst b) (dst + 1) bs
  end.

(** Reading back [n] bytes starting at [p]. *)
Fixpoint read (m : Mem) (p : Z) (n : nat) : list Byte.byte :=
  match n with
  | O => []
  | S n' => m p :: read m (p + 1) n'
  end.

Definition nullptr : Z := 0.

(** The caller-owned buffer together with the writer's cursor [fPtr]. *)
Record Machine := mkMachine { mem : Mem; fPtr : Z }.

(** [SkTAddOffset<void>(fPtr, n)]. *)
Definition SkTAddOffset (p : Z) (n : Z) : Z := p + n.

(** [memcpy(fPtr, &val, sizeof(T)); fPtr = SkTAddOffset<void>(fPtr, sizeof(T));]
    for a plain-data value whose object representation is [v]. *)
Definition put (v : list Byte.byte) (s : Machine) : Machine :=
  {| mem := memcpy (mem s) (fPtr s) v;
     fPtr := SkTAddOffset (fPtr s) (Z.of_nat (length v)) |}.

(** Little-endian object representation of a 32-bit word ([uint32_t], the
    bit pattern of a [float]). *)
Definition byte_of_Z (z : Z) : Byte.byte :=
  match Stdlib.Strings.Byte.of_N (Z.to_N (z mod 256)) with Some b => b | None => Byte.x00 end.

Definition u32 (w : Z) : list Byte.byte :=
  [byte_of_Z w; byte_of_Z (Z.shiftr w 8); byte_of_Z (Z.shiftr w 16);
   byte_of_Z (Z.shiftr w 24)].

(** [GrVertexColor]: [GrColor fColor[4]; bool fWideColor;]. *)
Record GrVertexColor := mkColor {
  fColor0 : Z; fColor1 : Z; fColor2 : Z; fColor3 : Z;
  fWideColor : bool }.

(** The arguments accepted by the overloads of [write]. *)
Inductive Arg :=
| Plain (val : list Byte.byte)            (** [const T&], POD, its bytes *)
| Array (val : list (list Byte.byte))     (** [const T(&)[N]], N elements *)
| Color (color : GrVertexColor)           (** [const GrVertexColor&] *)
| If (condition : bool) (value : Arg)     (** [Conditional<T>] *)
| Skip (sizeofT : nat)                    (** [Skip<T>] *)
| Vec4f (x y z w : Z).                    (** [Sk4f], lanes as float bit patterns *)

(** One argument of [write(val, remainder...)]. *)
Fixpoint write1 (a : Arg) (s : Machine) : Machine :=
  match a with
  | Plain v => put v s
  | Array vs => put (concat vs) s
  | Color c =>
      let s := put (u32 (fColor0 c)) s in
      if fWideColor c
      then put (u32 (fColor3 c)) (put (u32 (fColor2 c)) (put (u32 (fColor1 c)) s))
      else s
  | If cond v => if cond then write1 v s else s
  | Skip n => {| mem := mem s; fPtr := SkTAddOffset (fPtr s) (Z.of_nat n) |}
  | Vec4f x y z w =>
      (* float buffer[4]; vector.store(buffer); this->write<float, 4>(buffer); *)
      put (concat [u32 x; u32 y; u32 z; u32 w]) s
  end.

(** [write(A0, A1, ...)]: each argument in turn; [write()] does nothing. *)
Fixpoint write (args : list Arg) (s : Machine) : Machine :=
  match args with
  | [] => s
  | a :: rest => write rest (write1 a s)
  end.

(** [writeArray(array, count)] with [sizeof(T) = sz]: one [memcpy] of
    [count * sizeof(T)] bytes.  A negative [count] converts to a huge
    [size_t], and a [count] beyond the array reads past it: both are
    undefined behaviour, rendered as [None]. *)
Definition writeArray (sz : nat) (array : list (list Byte.byte)) (count : Z)
    (s : Machine) : option Machine :=
  if count <? 0 then None
  else
    let n := (Z.to_nat count * sz)%nat in
    let src := concat array in
    if Nat.ltb (length src) n then None
    else Some (put (firstn n src) s).

(** [fill(val, repeatCount)]. *)
Fixpoint fill_nat (val : Arg) (k : nat) (s : Machine) : Machine :=
  match k with
  | O => s
  | S k' => fill_nat val k' (write [val] s)
  end.

Definition fill (val : Arg) (repeatCount : Z) (s : Machine) : Machine :=
  fill_nat val (Z.to_nat repeatCount) s.

(** [writeRaw(data, size)]. *)
Definition writeRaw (data : list Byte.byte) (s : Machine) : Machine := put data s.

(** [makeOffset(offsetInBytes)]: a new cursor, the original untouched. *)
Definition makeOffset (s : Machine) (offsetInBytes : Z) : Machine :=
  {| mem := mem s; fPtr := SkTAddOffset (fPtr s) offsetInBytes |}.

(** The arguments of [writeQuad]: [TriStrip<T>], [TriFan<T>] (fields
    [l, t, r, b], each the bytes of a [T]), [GrQuad] (given by the points
    [q.point(0..3)], each the bytes of an [SkPoint]) and any other argument. *)
Inductive QuadArg :=
| QVal (a : Arg)
| TriStrip (l t r b : list Byte.byte)
| TriFan (l t r b : list Byte.byte)
| Quad (p0 p1 p2 p3 : list Byte.byte).

Definition writeQuadValue (corner : nat) (q : QuadArg) (s : Machine) : Machine :=
  match q with
  | QVal a => write [a] s
  | TriStrip l t r b =>
      match corner with
      | 0%nat => write [Plain l; Plain t] s
      | 1%nat => write [Plain l; Plain b] s
      | 2%nat => write [Plain r; Plain t] s
      | 3%nat => write [Plain r; Plain b] s
      | _ => s
      end
  | TriFan l t r b =>
      match corner with
      | 0%nat => write [Plain l; Plain t] s
      | 1%nat => write [Plain l; Plain b] s
      | 2%nat => write [Plain r; Plain b] s
      | 3%nat => write [Plain r; Plain t] s
      | _ => s
      end
  | Quad p0 p1 p2 p3 =>
      write [Plain (nth corner [p0; p1; p2; p3] [])] s
  end.

Fixpoint writeQuadVert (corner : nat) (args : list QuadArg) (s : Machine) : Machine :=
  match args with
  | [] => s
  | q :: rest => writeQuadVert corner rest (writeQuadValue corner q s)
  end.

Definition writeQuad (args : list QuadArg) (s : Machine) : Machine :=
  writeQuadVert 3 args (writeQuadVert 2 args (writeQuadVert 1 args (writeQuadVert 0 args s))).

(** The writer objects of a program, by name, with their [fPtr]. *)
Definition Writers := nat -> Z.

Definition set_writer (ws : Writers) (n : nat) (p : Z) : Writers :=
  fun k => if Nat.eqb k n then p else ws k.

(** [operator=(GrVertexWriter&& that)] on [*this = ws dst], [that = ws src]:
    [fPtr = that.fPtr; that.fPtr = nullptr;]. *)
Definition move_assign (dst src : nat) (ws : Writers) : Writers :=
  let ws := set_writer ws dst (ws src) in
  set_writer ws src nullptr.

(** [GrVertexWriter(GrVertexWriter&& that) { *this = std::move(that); }]. *)
Definition move_construct (dst src : nat) (ws : Writers) : Writers :=
  move_assign dst src ws.

(** [operator==] and [operator bool]. *)
Definition writer_eq (p q : Z) : bool := Z.eqb p q.
Definition writer_bool (p : Z) : bool := negb (Z.eqb p nullptr).

(** IEEE-754 single-precision bit patterns of 0.0f, 10.0f and 20.0f. *)
Definition f32_0 : list Byte.byte := u32 0.
Definition f32_10 : list Byte.byte := u32 1092616192.  (* 0x41200000 *)
Definition f32_20 : list Byte.byte := u32 1101004800.  (* 0x41A00000 *)

(** The number of bytes by which [write1 a] moves the cursor, read off each
    overload of [write]. *)
Fixpoint advance (a : Arg) : Z :=
  match a with
  | Plain v => Z.of_nat (length v)
  | Array vs => Z.of_nat (length (concat vs))
  | Color c => if fWideColor c then 16 else 4
  | If cond v => if cond then advance v else 0
  | Skip n => Z.of_nat n
  | Vec4f _ _ _ _ => 16
  end.

(** The arguments [writeQuadValue<corner>] hands to [write] for one
    [writeQuad] argument. *)
Definition corner_args (corner : nat) (q : QuadArg) : list Arg :=
  match q with
  | QVal a => [a]
  | TriStrip l t r b =>
      match corner with
      | 0%nat => [Plain l; Plain t] | 1%nat => [Plain l; Plain b]
      | 2%nat => [Plain r; Plain t] | 3%nat => [Plain r; Plain b]
      | _ => []
      end
  | TriFan l t r b =>
      match corner with
      | 0%nat => [Plain l; Plain t] | 1%nat => [Plain l; Plain b]
      | 2%nat => [Plain r; Plain b] | 3%nat => [Plain r; Plain t]
      | _ => []
      end
  | Quad p0 p1 p2 p3 => [Plain (nth corner [p0; p1; p2; p3] [])]
  end.

(** The C++ types behind a [QuadArg]: the four fields of a [TriStrip<T>] or
    [TriFan<T>] are all of type [T], the four points of a [GrQuad] are all
    [SkPoint]s, so each group has one size. *)
Definition uniform_quad_arg (q : QuadArg) : Prop :=
  match q with
  | QVal _ => True
  | TriStrip l t r b | TriFan l t r b =>
      length t = length l /\ length r = length l /\ length b = length l
  | Quad p0 p1 p2 p3 =>
      length p1 = length p0 /\ length p2 = length p0 /\ length p3 = length p0
  end.

End VertexWriter.

(** ** skgpu::mtl::RenderCommandEncoder *)
Module MtlEncoder.

(** Objective-C object references ([id<...>], [NSString*]) are compared by
    identity: they are their addresses, [nil] being 0.  [NSUInteger] is a
    64-bit unsigned integer. *)
Definition id := N.
Definition nil_id : id := 0%N.
Definition NSUInteger := N.
Definition NSUIntegerModulus : Z := 2 ^ 64.

(** [MTLTriangleFillMode]: [MTLTriangleFillModeFill = 0], [MTLTriangleFillModeLines = 1]. *)
Definition MTLTriangleFillMode := NSUInteger.
Definition MTLTriangleFillModeFill : MTLTriangleFillMode := 0%N.
Definition MTLTriangleFillModeLines : MTLTriangleFillMode := 1%N.

(** [(MTLTriangleFillMode)-1]: the conversion of -1 to [NSUInteger]. *)
Definition fill_mode_of_int (v : Z) : MTLTriangleFillMode :=
  Z.to_N (v mod NSUIntegerModulus).

Record MTLScissorRect := mkScissor {
  x : NSUInteger; y : NSUInteger; width : NSUInteger; height : NSUInteger }.

(** [MTLViewport]: six doubles, kept as their bit patterns (only forwarded). *)
Record MTLViewport := mkViewport {
  originX : Z; originY : Z; vwidth : Z; vheight : Z; znear : Z; zfar : Z }.

(** The messages of the wrapper, which are also the messages it sends to the
    wrapped [id<MTLRenderCommandEncoder>] (same selector, same arguments). *)
Inductive Msg :=
| setLabel (label : id)
| pushDebugGroup (string : id)
| popDebugGroup
| insertDebugSignpost (string : id)
| setRenderPipelineState (pso : id)
| setTriangleFillMode (fillMode : MTLTriangleFillMode)
| setFrontFacingWinding (winding : NSUInteger)
| setViewport (viewport : MTLViewport)
| setVertexBytes (bytes : id) (length index : NSUInteger)
| setFragmentBytes (bytes : id) (length index : NSUInteger)
| setStencilFrontBackReferenceValues (front back : N)
| setStencilReferenceValue (referenceValue : N)
| setDepthStencilState (depthStencilState : id)
| setScissorRect (scissorRect : MTLScissorRect)
| drawPrimitives (primitiveType vertexStart vertexCount : NSUInteger)
| drawPrimitivesInstanced (primitiveType vertexStart vertexCount instanceCount
    baseInstance : NSUInteger)
| drawPrimitivesIndirect (primitiveType : NSUInteger) (indirectBuffer : id)
    (indirectBufferOffset : NSUInteger)
| drawIndexedPrimitives (primitiveType indexCount indexType : NSUInteger)
    (indexBuffer : id) (indexBufferOffset : NSUInteger)
| drawIndexedPrimitivesInstanced (primitiveType indexCount indexType : NSUInteger)
    (indexBuffer : id) (indexBufferOffset instanceCount : NSUInteger)
    (baseVertex : Z) (baseInstance : NSUInteger)
| drawIndexedPrimitivesIndirect (primitiveType indexType : NSUInteger)
    (indexBuffer : id) (indexBufferOffset : NSUInteger) (indirectBuffer : id)
    (indirectBufferOffset : NSUInteger)
| endEncoding.

(** The tracked-state members of [RenderCommandEncoder]. *)
Record TrackedState := mkTracked {
  fCurrentRenderPipelineState : id;
  fCurrentDepthStencilState : id;
  fCurrentScissorRect : MTLScissorRect;
  fCurrentTriangleFillMode : MTLTriangleFillMode }.

(** [RenderCommandEncoder]: [fCommandEncoder] is the list of messages the
    wrapped encoder has received, oldest first. *)
Record RenderCommandEncoder := mkEncoder {
  fCommandEncoder : list Msg;
  tracked : TrackedState }.

(** The default member initializers. *)
Definition initial_tracked : TrackedState :=
  {| fCurrentRenderPipelineState := nil_id;
     fCurrentDepthStencilState := nil_id;
     fCurrentScissorRect := mkScissor 0%N 0%N 0%N 0%N;
     fCurrentTriangleFillMode := fill_mode_of_int (-1) |}.

(** [Make]: a wrapper around a fresh encoder, which has received nothing. *)
Definition Make : RenderCommandEncoder :=
  {| fCommandEncoder := []; tracked := initial_tracked |}.

Definition scissor_neq (a b : MTLScissorRect) : bool :=
  negb (N.eqb (x a) (x b)) || negb (N.eqb (y a) (y b)) ||
  negb (N.eqb (width a) (width b)) || negb (N.eqb (height a) (height b)).

(** The body of each method: the messages it sends to [fCommandEncoder] and
    the tracked state it leaves. *)
Definition method (m : Msg) (st : TrackedState) : list Msg * TrackedState :=
  match m with
  | setRenderPipelineState pso =>
      if negb (N.eqb (fCurrentRenderPipelineState st) pso)
      then ([m], {| fCurrentRenderPipelineState := pso;
                    fCurrentDepthStencilState := fCurrentDepthStencilState st;
                    fCurrentScissorRect := fCurrentScissorRect st;
                    fCurrentTriangleFillMode := fCurrentTriangleFillMode st |})
      else ([], st)
  | setTriangleFillMode fillMode =>
      if negb (N.eqb (fCurrentTriangleFillMode st) fillMode)
      then ([m], {| fCurrentRenderPipelineState := fCurrentRenderPipelineState st;
                    fCurrentDepthStencilState := fCurrentDepthStencilState st;
                    fCurrentScissorRect := fCurrentScissorRect st;
                    fCurrentTriangleFillMode := fillMode |})
      else ([], st)
  | setDepthStencilState dss =>
      if negb (N.eqb dss (fCurrentDepthStencilState st))
      then ([m], {| fCurrentRenderPipelineState := fCurrentRenderPipelineState st;
                    fCurrentDepthStencilState := dss;
                    fCurrentScissorRect := fCurrentScissorRect st;
                    fCurrentTriangleFillMode := fCurrentTriangleFillMode st |})
      else ([], st)
  | setScissorRect r =>
      if scissor_neq (fCurrentScissorRect st) r
      then ([m], {| fCurrentRenderPipelineState := fCurrentRenderPipelineState st;
                    fCurrentDepthStencilState := fCurrentDepthStencilState st;
                    fCurrentScissorRect := r;
                    fCurrentTriangleFillMode := fCurrentTriangleFillMode st |})
      else ([], st)
  (* every other method forwards its message unconditionally, endEncoding
     included *)
  | _ => ([m], st)
  end.

Definition call (e : RenderCommandEncoder) (m : Msg) : RenderCommandEncoder :=
  let (out, st) := method m (tracked e) in
  {| fCommandEncoder := fCommandEncoder e ++ out; tracked := st |}.

(** A sequence of calls on one encoder. *)
Definition run (e : RenderCommandEncoder) (ms : list Msg) : RenderCommandEncoder :=
  fold_left call ms e.

(** The messages one call sends. *)
Definition sent (e : RenderCommandEncoder) (m : Msg) : list Msg :=
  fst (method m (tracked e)).

Definition is_pipeline_call (m : Msg) : bool :=
  match m with setRenderPipelineState _ => true | _ => false end.

Definition count_pipeline_calls (e : RenderCommandEncoder) : nat :=
  length (filter is_pipeline_call (fCommandEncoder e)).

Definition is_scissor_call (m : Msg) : bool :=
  match m with setScissorRect _ => true | _ => false end.

Definition count_scissor_calls (e : RenderCommandEncoder) : nat :=
  length (filter is_scissor_call (fCommandEncoder e)).

(** The methods whose message the wrapper may leave unsent. *)
Definition is_cached (m : Msg) : bool :=
  match m with
  | setRenderPipelineState _ | setTriangleFillMode _
  | setDepthStencilState _ | setScissorRect _ => true
  | _ => false
  end.

Definition sel_pso (m : Msg) : option id :=
  match m with setRenderPipelineState p => Some p | _ => None end.
Definition sel_dss (m : Msg) : option id :=
  match m with setDepthStencilState d => Some d | _ => None end.
Definition sel_scissor (m : Msg) : option MTLScissorRect :=
  match m with setScissorRect r => Some r | _ => None end.
Definition sel_fill (m : Msg) : option MTLTriangleFillMode :=
  match m with setTriangleFillMode f => Some f | _ => None end.

(** The argument of the last message selected by [sel] in [log], or [init]
    when there is none. *)
Definition last_value {A} (sel : Msg -> option A) (init : A) (log : list Msg) : A :=
  fold_left (fun acc m => match sel m with Some v => v | None => acc end) log init.

(** The value each tracked slot would hold if it followed the messages the
    wrapped encoder has received, starting from the initializers. *)
Definition tracked_of_log (log : list Msg) : TrackedState :=
  {| fCurrentRenderPipelineState := last_value sel_pso (fCurrentRenderPipelineState initial_tracked) log;
     fCurrentDepthStencilState := last_value sel_dss (fCurrentDepthStencilState initial_tracked) log;
     fCurrentScissorRect := last_value sel_scissor (fCurrentScissorRect initial_tracked) log;
     fCurrentTriangleFillMode := last_value sel_fill (fCurrentTriangleFillMode initial_tracked) log |}.

End MtlEncoder.

(** ** Properties of GrVertexWriter *)
Module VertexWriterFacts.
Import VertexWriter.

Lemma memcpy_app m p a b :
  memcpy m p (a ++ b) = memcpy (memcpy m p a) (p + Z.of_nat (length a)) b.
Proof.
  revert m p; induction a as [|c a IH]; intros m p; cbn [app memcpy length].
  - now rewrite Z.add_0_r.
  - rewrite IH, Nat2Z.inj_succ. f_equal. lia.
Qed.

Lemma memcpy_outside m p v a :
  a < p \/ p + Z.of_nat (length v) <= a -> memcpy m p v a = m a.
Proof.
  revert m p; induction v as [|c v IH]; intros m p Ha; cbn [memcpy length] in *.
  - reflexivity.
  - rewrite Nat2Z.inj_succ in Ha. rewrite IH by lia.
    unfold upd. destruct (Z.eqb_spec a p); [lia | reflexivity].
Qed.

Lemma read_memcpy_prefix m p v n :
  (n <= length v)%nat -> read (memcpy m p v) p n = firstn n v.
Proof.
  revert m p n; induction v as [|c v IH]; intros m p n Hn.
  - destruct n; [reflexivity | simpl in Hn; lia].
  - destruct n as [|n]; [reflexivity|].
    cbn [read memcpy firstn length] in *.
    rewrite memcpy_outside by lia. unfold upd at 1. rewrite Z.eqb_refl.
    f_equal. apply IH. lia.
Qed.

Lemma read_memcpy m p v : read (memcpy m p v) p (length v) = v.
Proof. rewrite read_memcpy_prefix by lia. apply firstn_all. Qed.

Lemma put_app a b s : put b (put a s) = put (a ++ b) s.
Proof.
  destruct s as [m p]. unfold put, SkTAddOffset; cbn [mem fPtr].
  rewrite memcpy_app, length_app, Nat2Z.inj_add. f_equal. lia.
Qed.

Lemma put_nil s : put [] s = s.
Proof. destruct s as [m p]. unfold put, SkTAddOffset; simpl. now rewrite Z.add_0_r. Qed.

Lemma write_plains vs s : write (map Plain vs) s = put (concat vs) s.
Proof.
  revert s; induction vs as [|v vs IH]; intros s; simpl.
  - now rewrite put_nil.
  - now rewrite IH, put_app.
Qed.

Lemma length_concat_uniform (sz : nat) arr :
  Forall (fun e : list Byte.byte => length e = sz) arr -> length (concat arr) = (length arr * sz)%nat.
Proof.
  induction 1 as [|e arr He _ IH]; simpl; [reflexivity|].
  rewrite length_app, He, IH. lia.
Qed.

Lemma Forall_firstn_sub {A} (P : A -> Prop) n l :
  Forall P l -> Forall P (firstn n l).
Proof.
  intros H; revert n; induction H as [|a l Ha _ IH]; intros [|n]; simpl;
    constructor; auto.
Qed.

Lemma firstn_concat_uniform (sz : nat) arr k :
  Forall (fun e : list Byte.byte => length e = sz) arr ->
  firstn (k * sz) (concat arr) = concat (firstn k arr).
Proof.
  intros H; revert k; induction H as [|e arr He _ IH]; intros k.
  - rewrite !firstn_nil. reflexivity.
  - destruct k as [|k]; [reflexivity|].
    cbn [concat firstn]. rewrite firstn_app, He.
    rewrite firstn_all2 by lia.
    replace (S k * sz - sz)%nat with (k * sz)%nat by lia.
    now rewrite IH.
Qed.

(** C3: scalar writes of sizes [s1..sn] advance the cursor by
    [s1 + ... + sn]. *)
Theorem write_scalars_advance (vs : list (list Byte.byte)) (s : Machine) :
  fPtr (write (map Plain vs) s) =
  fPtr s + fold_right Z.add 0 (map (fun v => Z.of_nat (length v)) vs).
Proof.
  revert s; induction vs as [|v vs IH]; intros s; simpl.
  - lia.
  - rewrite IH. unfold put, SkTAddOffset; simpl. lia.
Qed.

(** C4: [writeQuad] on one rectangle writes, for corners 0..3 in order, the
    pairs (l,t), (l,b), (r,t), (r,b) for a [TriStrip] and (l,t), (l,b),
    (r,b), (r,t) for a [TriFan]; for (l,t,r,b) = (0,0,10,20) as floats the
    bytes read back from the start are those of (0,0), (0,20), (10,0),
    (10,20), respectively (0,0), (0,20), (10,20), (10,0). *)
Theorem writeQuad_strip_fan_order (l t r b : list Byte.byte) (s : Machine) :
  writeQuad [TriStrip l t r b] s = write (map Plain [l; t; l; b; r; t; r; b]) s /\
  writeQuad [TriFan l t r b] s = write (map Plain [l; t; l; b; r; b; r; t]) s /\
  read (mem (writeQuad [TriStrip f32_0 f32_0 f32_10 f32_20] s)) (fPtr s) 32 =
    concat [f32_0; f32_0; f32_0; f32_20; f32_10; f32_0; f32_10; f32_20] /\
  read (mem (writeQuad [TriFan f32_0 f32_0 f32_10 f32_20] s)) (fPtr s) 32 =
    concat [f32_0; f32_0; f32_0; f32_20; f32_10; f32_20; f32_10; f32_0].
Proof.
  assert (Hs : forall l t r b s,
    writeQuad [TriStrip l t r b] s = write (map Plain [l; t; l; b; r; t; r; b]) s)
    by reflexivity.
  assert (Hf : forall l t r b s,
    writeQuad [TriFan l t r b] s = write (map Plain [l; t; l; b; r; b; r; t]) s)
    by reflexivity.
  split; [apply Hs|]. split; [apply Hf|].
  split.
  - rewrite Hs, write_plains. apply read_memcpy.
  - rewrite Hf, write_plains. apply read_memcpy.
Qed.

(** C7: a [Conditional] with a false condition writes nothing and leaves the
    cursor where it was; with a true condition it is the unconditional write
    of its value. *)
Theorem write_conditional (a : Arg) (s : Machine) :
  write [If false a] s = s /\ write [If true a] s = write [a] s.
Proof. split; reflexivity. Qed.

(** C8: a [GrVertexColor] always writes [fColor[0]] first; a narrow one
    advances the cursor by one 4-byte word, a wide one writes [fColor[1..3]]
    after it and advances by four words. *)
Theorem write_color_footprint (c : GrVertexColor) (s : Machine) :
  read (mem (write [Color c] s)) (fPtr s) 4 = u32 (fColor0 c) /\
  fPtr (write [Color c] s) = fPtr s + (if fWideColor c then 16 else 4) /\
  read (mem (write [Color c] s)) (fPtr s) (if fWideColor c then 16 else 4) =
    u32 (fColor0 c) ++
    (if fWideColor c then u32 (fColor1 c) ++ u32 (fColor2 c) ++ u32 (fColor3 c)
     else []).
Proof.
  destruct c as [c0 c1 c2 c3 []]; cbn [write write1 fWideColor fColor0 fColor1 fColor2 fColor3].
  - rewrite !put_app. unfold put, SkTAddOffset; cbn [mem fPtr].
    split; [|split].
    + rewrite read_memcpy_prefix by (simpl; lia). reflexivity.
    + reflexivity.
    + rewrite read_memcpy_prefix by (simpl; lia). reflexivity.
  - unfold put, SkTAddOffset; cbn [mem fPtr].
    split; [|split].
    + apply (read_memcpy _ _ (u32 c0)).
    + reflexivity.
    + rewrite app_nil_r. apply (read_memcpy _ _ (u32 c0)).
Qed.

(** C9: for [0 <= count <= ] the array's length, [writeArray(array, count)]
    leaves the same buffer and cursor as [count] scalar writes of the
    elements in order, and the [count * sizeof(T)] bytes read back from the
    starting address are the bytes of those elements. *)
Theorem writeArray_as_scalar_writes (sz : nat) (array : list (list Byte.byte))
    (count : Z) (s : Machine) :
  Forall (fun e : list Byte.byte => length e = sz) array ->
  0 <= count <= Z.of_nat (length array) ->
  writeArray sz array count s =
    Some (write (map Plain (firstn (Z.to_nat count) array)) s) /\
  read (mem (write (map Plain (firstn (Z.to_nat count) array)) s)) (fPtr s)
       (Z.to_nat count * sz) = concat (firstn (Z.to_nat count) array).
Proof.
  intros Hsz Hc.
  assert (Hlen : length (concat (firstn (Z.to_nat count) array)) = (Z.to_nat count * sz)%nat).
  { rewrite (length_concat_uniform sz).
    - rewrite length_firstn. f_equal. lia.
    - apply Forall_firstn_sub. exact Hsz. }
  split.
  - unfold writeArray.
    destruct (Z.ltb_spec count 0) as [Hneg|_]; [lia|].
    rewrite (length_concat_uniform sz _ Hsz).
    destruct (Nat.ltb_spec (length array * sz) (Z.to_nat count * sz)) as [Hlt|_].
    + exfalso. assert (Z.to_nat count <= length array)%nat by lia. nia.
    + rewrite write_plains. f_equal. f_equal.
      apply firstn_concat_uniform. exact Hsz.
  - rewrite write_plains. unfold put; cbn [mem].
    rewrite <- Hlen. apply read_memcpy.
Qed.

Lemma move_assign_spec (ws : Writers) (dst src : nat) :
  dst <> src ->
  move_assign dst src ws dst = ws src /\ move_assign dst src ws src = nullptr.
Proof.
  intros Hne. unfold move_assign, set_writer.
  rewrite Nat.eqb_refl.
  destruct (Nat.eqb_spec dst src) as [E|_]; [contradiction|].
  rewrite Nat.eqb_refl. split; reflexivity.
Qed.

(** C10: after [dst] is move-assigned or move-constructed from a distinct
    writer [src], [dst] holds [src]'s former address, [src] holds
    [nullptr] and tests false, and the two compare equal only when both are
    null. *)
Theorem move_nulls_source (ws : Writers) (dst src : nat) :
  dst <> src ->
  forall mv, (mv = move_assign dst src \/ mv = move_construct dst src) ->
  mv ws dst = ws src /\ mv ws src = nullptr /\
  writer_bool (mv ws src) = false /\
  (writer_eq (mv ws dst) (mv ws src) = true <->
     mv ws dst = nullptr /\ mv ws src = nullptr).
Proof.
  intros Hne mv Hmv.
  assert (Hm : mv ws dst = ws src /\ mv ws src = nullptr)
    by (destruct Hmv; subst mv; apply move_assign_spec; exact Hne).
  destruct Hm as [Hd Hs].
  split; [exact Hd|]. split; [exact Hs|].
  rewrite Hs. split; [reflexivity|].
  unfold writer_eq. rewrite Z.eqb_eq. tauto.
Qed.

Lemma writeArray_as_scalar_writes_witness :
  let arr := [[Byte.x01; Byte.x02]; [Byte.x03; Byte.x04]; [Byte.x05; Byte.x06]] in
  let s := {| mem := fun _ => Byte.x00; fPtr := 4096 |} in
  (Forall (fun e : list Byte.byte => length e = 2%nat) arr /\ 0 <= 2 <= Z.of_nat (length arr)) /\
  (writeArray 2 arr 2 s = Some (write (map Plain (firstn (Z.to_nat 2) arr)) s) /\
   read (mem (write (map Plain (firstn (Z.to_nat 2) arr)) s)) (fPtr s)
        (Z.to_nat 2 * 2) = concat (firstn (Z.to_nat 2) arr)).
Proof.
  intros arr s. split.
  - split; [repeat constructor | simpl; lia].
  - apply writeArray_as_scalar_writes; [repeat constructor | simpl; lia].
Defined.

Lemma move_nulls_source_witness :
  let ws : Writers := fun k => Z.of_nat k * 16 + 4096 in
  (0%nat <> 1%nat /\ (move_assign 0 1 = move_assign 0 1 \/ move_assign 0 1 = move_construct 0 1)) /\
  (move_assign 0 1 ws 0%nat = ws 1%nat /\ move_assign 0 1 ws 1%nat = nullptr /\
   writer_bool (move_assign 0 1 ws 1%nat) = false /\
   (writer_eq (move_assign 0 1 ws 0%nat) (move_assign 0 1 ws 1%nat) = true <->
      move_assign 0 1 ws 0%nat = nullptr /\ move_assign 0 1 ws 1%nat = nullptr)).
Proof.
  intros ws. split.
  - split; [lia | left; reflexivity].
  - apply (move_nulls_source ws 0 1); [lia | left; reflexivity].
Defined.

(** *** Further properties of GrVertexWriter *)

Lemma length_u32 w : length (u32 w) = 4%nat.
Proof. reflexivity. Qed.

Lemma put_frame v s a :
  a < fPtr s \/ fPtr s + Z.of_nat (length v) <= a -> mem (put v s) a = mem s a.
Proof. intros H. unfold put; cbn [mem]. apply memcpy_outside. exact H. Qed.

Lemma write1_fPtr a s : fPtr (write1 a s) = fPtr s + advance a.
Proof.
  induction a as [v|vs|c|cond a IH|n|x y z w]; cbn [write1 advance].
  - reflexivity.
  - reflexivity.
  - destruct c as [c0 c1 c2 c3 []]; cbn [fWideColor].
    + rewrite !put_app. reflexivity.
    + reflexivity.
  - destruct cond; [apply IH | lia].
  - reflexivity.
  - reflexivity.
Qed.

Lemma advance_nonneg a : 0 <= advance a.
Proof.
  induction a as [v|vs|c|cond a IH|n|x y z w]; cbn [advance]; try lia.
  - destruct (fWideColor c); lia.
  - destruct cond; lia.
Qed.

Lemma write1_frame x s a :
  a < fPtr s \/ fPtr (write1 x s) <= a -> mem (write1 x s) a = mem s a.
Proof.
  rewrite write1_fPtr. revert s.
  induction x as [v|vs|c|cond x IH|n|x y z w]; intros s H; cbn [write1 advance] in *.
  - apply put_frame. exact H.
  - apply put_frame. exact H.
  - destruct c as [c0 c1 c2 c3 []]; cbn [fWideColor] in *.
    + rewrite !put_app. apply put_frame. exact H.
    + apply put_frame. exact H.
  - destruct cond; [apply IH; exact H | reflexivity].
  - reflexivity.
  - apply put_frame. exact H.
Qed.

Lemma write_app a b s : write (a ++ b) s = write b (write a s).
Proof. revert s; induction a as [|x a IH]; intros s; simpl; auto. Qed.

(** The cursor moves by the sum of the footprints of the arguments: the
    value's size, the array's size, 4 or 16 bytes for a narrow or wide color,
    nothing for a false [Conditional], [sizeof(T)] for a [Skip<T>], 16 bytes
    for an [Sk4f]; the move does not depend on the start address or the
    buffer's contents. *)
Theorem write_advance (args : list Arg) (s : Machine) :
  fPtr (write args s) = fPtr s + fold_right Z.add 0 (map advance args).
Proof.
  revert s; induction args as [|x args IH]; intros s; simpl; [lia|].
  rewrite IH, write1_fPtr. lia.
Qed.

(** [write] never moves the cursor backwards and never changes a byte
    outside the span between the old and the new cursor. *)
Theorem write_stays_in_span (args : list Arg) (s : Machine) (a : Z) :
  fPtr s <= fPtr (write args s) /\
  (a < fPtr s \/ fPtr (write args s) <= a -> mem (write args s) a = mem s a).
Proof.
  revert s; induction args as [|x args IH]; intros s; simpl; [split; auto; lia|].
  pose proof (write1_fPtr x s) as Hx. pose proof (advance_nonneg x) as Hn.
  destruct (IH (write1 x s)) as [Hmono Hframe].
  split; [lia|].
  intros H. rewrite Hframe by lia. apply write1_frame. lia.
Qed.

Lemma read_ext m1 m2 p n :
  (forall i, p <= i < p + Z.of_nat n -> m1 i = m2 i) -> read m1 p n = read m2 p n.
Proof.
  revert p; induction n as [|n IH]; intros p H; simpl; [reflexivity|].
  f_equal; [apply H; lia|]. apply IH. intros i Hi. apply H. lia.
Qed.

(** A [Skip<T>] between two values leaves the skipped bytes as they were:
    [write(a, Skip<T>(), b)] puts [a] at the cursor, [b] [sizeof(T)] bytes
    after the end of [a], and the cursor after [b]. *)
Theorem write_skip_leaves_hole (a b : list Byte.byte) (n : nat) (s : Machine) :
  let s' := write [Plain a; Skip n; Plain b] s in
  read (mem s') (fPtr s) (length a) = a /\
  read (mem s') (fPtr s + Z.of_nat (length a)) n =
    read (mem s) (fPtr s + Z.of_nat (length a)) n /\
  read (mem s') (fPtr s + Z.of_nat (length a) + Z.of_nat n) (length b) = b /\
  fPtr s' = fPtr s + Z.of_nat (length a) + Z.of_nat n + Z.of_nat (length b).
Proof.
  destruct s as [m p]. cbn [write write1]. unfold put, SkTAddOffset; cbn [mem fPtr].
  split; [|split; [|split]].
  - rewrite (read_ext _ (memcpy m p a)).
    + apply read_memcpy.
    + intros i Hi. apply memcpy_outside. lia.
  - apply read_ext. intros i Hi.
    rewrite memcpy_outside by lia. apply memcpy_outside. lia.
  - apply read_memcpy.
  - lia.
Qed.

Lemma fill_nat_plain v k s :
  fill_nat (Plain v) k s = put (concat (repeat v k)) s.
Proof.
  revert s; induction k as [|k IH]; intros s; cbn [fill_nat repeat concat].
  - now rewrite put_nil.
  - rewrite IH. cbn [write write1]. apply put_app.
Qed.

(** [fill(val, repeatCount)] writes nothing and leaves the cursor where it
    is when [repeatCount <= 0]. *)
Theorem fill_nonpositive (val : Arg) (repeatCount : Z) (s : Machine) :
  repeatCount <= 0 -> fill val repeatCount s = s.
Proof.
  intros H. unfold fill. replace (Z.to_nat repeatCount) with 0%nat by lia. reflexivity.
Qed.

(** [fill(val, k)] of a plain value [v] advances the cursor by
    [k * sizeof(v)] and the bytes read back are [k] copies of [v]. *)
Theorem fill_plain_readback (v : list Byte.byte) (k : Z) (s : Machine) :
  fPtr (fill (Plain v) k s) = fPtr s + Z.of_nat (Z.to_nat k * length v) /\
  read (mem (fill (Plain v) k s)) (fPtr s) (Z.to_nat k * length v) =
    concat (repeat v (Z.to_nat k)).
Proof.
  unfold fill. rewrite fill_nat_plain.
  assert (Hl : length (concat (repeat v (Z.to_nat k))) = (Z.to_nat k * length v)%nat).
  { rewrite (length_concat_uniform (length v)), repeat_length; [reflexivity|].
    apply Forall_forall. intros e He. apply repeat_spec in He. now subst. }
  unfold put, SkTAddOffset; cbn [mem fPtr]. rewrite Hl.
  split; [reflexivity|]. rewrite <- Hl. apply read_memcpy.
Qed.

Lemma fill_nonpositive_witness :
  -3 <= 0 /\ fill (Plain [Byte.x01]) (-3) {| mem := fun _ => Byte.x00; fPtr := 64 |} =
              {| mem := fun _ => Byte.x00; fPtr := 64 |}.
Proof. split; [lia | apply fill_nonpositive; lia]. Defined.

(** [writeRaw(data, size)]: the [size] bytes read back from the old cursor
    are [data], and the cursor moves by [size]. *)
Theorem writeRaw_roundtrip (data : list Byte.byte) (s : Machine) :
  read (mem (writeRaw data s)) (fPtr s) (length data) = data /\
  fPtr (writeRaw data s) = fPtr s + Z.of_nat (length data).
Proof. split; [apply read_memcpy | reflexivity]. Qed.

Lemma writeQuadValue_corner_args c q s : writeQuadValue c q s = write (corner_args c q) s.
Proof.
  destruct q as [a|l t r b|l t r b|p0 p1 p2 p3]; cbn [writeQuadValue corner_args];
    try reflexivity;
    destruct c as [|[|[|[|c]]]]; reflexivity.
Qed.

Lemma writeQuadVert_flat c args s :
  writeQuadVert c args s = write (flat_map (corner_args c) args) s.
Proof.
  revert s; induction args as [|q args IH]; intros s; cbn [writeQuadVert flat_map].
  - reflexivity.
  - rewrite IH, writeQuadValue_corner_args, write_app. reflexivity.
Qed.

Lemma writeQuad_flat args s :
  writeQuad args s =
    write (flat_map (corner_args 0) args ++ flat_map (corner_args 1) args ++
           flat_map (corner_args 2) args ++ flat_map (corner_args 3) args) s.
Proof. unfold writeQuad. rewrite !writeQuadVert_flat, !write_app. reflexivity. Qed.

Lemma flat_map_shared c (shared : list Arg) :
  flat_map (corner_args c) (map QVal shared) = shared.
Proof. induction shared as [|a sh IH]; simpl; [reflexivity|]. now rewrite IH. Qed.

(** [writeQuad] of arguments that are neither rectangles nor quads writes
    them four times over. *)
Theorem writeQuad_shared_replicated (shared : list Arg) (s : Machine) :
  writeQuad (map QVal shared) s = write (shared ++ shared ++ shared ++ shared) s.
Proof. rewrite writeQuad_flat, !flat_map_shared. reflexivity. Qed.

(** [writeQuad(rect, attrs...)] writes four vertices, each the corner's two
    coordinates followed by the shared attributes: corners (l,t), (l,b),
    (r,t), (r,b) for a [TriStrip], (l,t), (l,b), (r,b), (r,t) for a [TriFan],
    and [q.point(0..3)] for a [GrQuad]. *)
Theorem writeQuad_vertices_with_attributes (l t r b p0 p1 p2 p3 : list Byte.byte)
    (shared : list Arg) (s : Machine) :
  writeQuad (TriStrip l t r b :: map QVal shared) s =
    write ([Plain l; Plain t] ++ shared ++ [Plain l; Plain b] ++ shared ++
           [Plain r; Plain t] ++ shared ++ [Plain r; Plain b] ++ shared) s /\
  writeQuad (TriFan l t r b :: map QVal shared) s =
    write ([Plain l; Plain t] ++ shared ++ [Plain l; Plain b] ++ shared ++
           [Plain r; Plain b] ++ shared ++ [Plain r; Plain t] ++ shared) s /\
  writeQuad (Quad p0 p1 p2 p3 :: map QVal shared) s =
    write ([Plain p0] ++ shared ++ [Plain p1] ++ shared ++
           [Plain p2] ++ shared ++ [Plain p3] ++ shared) s.
Proof.
  rewrite !writeQuad_flat. cbn [flat_map]. rewrite !flat_map_shared.
  split; [|split]; f_equal; simpl; rewrite <- !app_assoc; reflexivity.
Qed.

Lemma sum_advance_app l1 l2 :
  fold_right Z.add 0 (map advance (l1 ++ l2)) =
  fold_right Z.add 0 (map advance l1) + fold_right Z.add 0 (map advance l2).
Proof. induction l1 as [|x l1 IH]; simpl; [reflexivity|]. rewrite IH. lia. Qed.

Lemma corner_advance_uniform c q :
  uniform_quad_arg q -> (c < 4)%nat ->
  fold_right Z.add 0 (map advance (corner_args c q)) =
  fold_right Z.add 0 (map advance (corner_args 0 q)).
Proof.
  intros Hu Hc.
  destruct q as [a|l t r b|l t r b|p0 p1 p2 p3]; cbn [uniform_quad_arg] in Hu;
    [reflexivity| | |];
    destruct c as [|[|[|[|c]]]]; try lia; cbn [corner_args map fold_right advance nth];
    try reflexivity; destruct Hu as [H1 [H2 H3]]; rewrite ?H1, ?H2, ?H3; lia.
Qed.

Lemma vert_advance_uniform c args :
  Forall uniform_quad_arg args -> (c < 4)%nat ->
  fold_right Z.add 0 (map advance (flat_map (corner_args c) args)) =
  fold_right Z.add 0 (map advance (flat_map (corner_args 0) args)).
Proof.
  intros H Hc. induction H as [|q args Hq _ IH]; [reflexivity|].
  cbn [flat_map]. rewrite !sum_advance_app, IH, (corner_advance_uniform c q Hq Hc).
  reflexivity.
Qed.

(** When the fields of every [TriStrip<T>]/[TriFan<T>] share one type and
    the points of every [GrQuad] one size, the four vertices [writeQuad]
    writes have one size: each corner moves the cursor as far as corner 0,
    and the whole quad four times as far. *)
Theorem writeQuad_equal_vertices (args : list QuadArg) (s : Machine) :
  Forall uniform_quad_arg args ->
  fPtr (writeQuadVert 1 args s) - fPtr s = fPtr (writeQuadVert 0 args s) - fPtr s /\
  fPtr (writeQuadVert 2 args s) - fPtr s = fPtr (writeQuadVert 0 args s) - fPtr s /\
  fPtr (writeQuadVert 3 args s) - fPtr s = fPtr (writeQuadVert 0 args s) - fPtr s /\
  fPtr (writeQuad args s) = fPtr s + 4 * (fPtr (writeQuadVert 0 args s) - fPtr s).
Proof.
  intros H.
  rewrite writeQuad_flat, !writeQuadVert_flat, !write_advance, !sum_advance_app.
  rewrite (vert_advance_uniform 1 args H), (vert_advance_uniform 2 args H),
    (vert_advance_uniform 3 args H) by lia.
  repeat split; lia.
Qed.

Lemma writeQuad_equal_vertices_witness :
  let args := [TriStrip f32_0 f32_0 f32_10 f32_20; QVal (Color (mkColor 1 2 3 4 true));
               Quad [Byte.x01] [Byte.x02] [Byte.x03] [Byte.x04]] in
  let s := {| mem := fun _ => Byte.x00; fPtr := 256 |} in
  Forall uniform_quad_arg args /\
  (fPtr (writeQuadVert 1 args s) - fPtr s = fPtr (writeQuadVert 0 args s) - fPtr s /\
   fPtr (writeQuadVert 2 args s) - fPtr s = fPtr (writeQuadVert 0 args s) - fPtr s /\
   fPtr (writeQuadVert 3 args s) - fPtr s = fPtr (writeQuadVert 0 args s) - fPtr s /\
   fPtr (writeQuad args s) = fPtr s + 4 * (fPtr (writeQuadVert 0 args s) - fPtr s)).
Proof.
  intros args s.
  assert (H : Forall uniform_quad_arg args)
    by (repeat constructor; simpl; repeat split; reflexivity).
  split; [exact H | apply writeQuad_equal_vertices; exact H].
Defined.

End VertexWriterFacts.

(** ** Properties of RenderCommandEncoder *)
Module MtlEncoderFacts.
Import MtlEncoder.
Local Open Scope N_scope.

Lemma scissor_neq_false a b : scissor_neq a b = false <-> a = b.
Proof.
  destruct a as [x1 y1 w1 h1], b as [x2 y2 w2 h2]; unfold scissor_neq; cbn [x y width height].
  rewrite !orb_false_iff, !negb_false_iff, !N.eqb_eq.
  split.
  - intros [[[-> ->] ->] ->]. reflexivity.
  - intros E; injection E; intros; subst; tauto.
Qed.

Lemma scissor_neq_refl a : scissor_neq a a = false.
Proof. apply scissor_neq_false. reflexivity. Qed.

Lemma forwarded_iff (b : bool) (m : Msg) :
  ((if b then [m] else []) = [m] <-> b = true) /\
  ((if b then [m] else []) = [] <-> b = false).
Proof. destruct b; split; split; congruence. Qed.

Lemma first_sent_pso (pso : id) :
  sent Make (setRenderPipelineState pso) =
    if negb (N.eqb nil_id pso) then [setRenderPipelineState pso] else [].
Proof. unfold sent; simpl. now destruct (negb _). Qed.

Lemma first_sent_dss (dss : id) :
  sent Make (setDepthStencilState dss) =
    if negb (N.eqb dss nil_id) then [setDepthStencilState dss] else [].
Proof. unfold sent; simpl. now destruct (negb _). Qed.

Lemma first_sent_scissor (r : MTLScissorRect) :
  sent Make (setScissorRect r) =
    if scissor_neq (mkScissor 0 0 0 0) r then [setScissorRect r] else [].
Proof. unfold sent; simpl. now destruct (scissor_neq _ _). Qed.

Lemma first_sent_fill (fm : MTLTriangleFillMode) :
  sent Make (setTriangleFillMode fm) =
    if negb (N.eqb 18446744073709551615 fm) then [setTriangleFillMode fm] else [].
Proof. unfold sent; simpl. now destruct (negb _). Qed.

(** C1 (as the code has it): the tracked state starts at [nil] for the
    pipeline and depth/stencil objects, at [(MTLTriangleFillMode)-1] =
    2^64-1 for the fill mode and at the rectangle (0,0,0,0) for the scissor.
    The first call on a fresh encoder is forwarded exactly when its argument
    differs from that initial value: every fill mode, [Fill] and [Lines]
    included, and every non-nil pipeline or depth/stencil object is
    forwarded, but a nil object or the scissor rectangle (0,0,0,0) is not. *)
Theorem first_call_forwarded_unless_initial (pso dss : id) (r : MTLScissorRect)
    (fm : MTLTriangleFillMode) :
  fCurrentTriangleFillMode (tracked Make) = 18446744073709551615 /\
  (sent Make (setRenderPipelineState pso) = [setRenderPipelineState pso] <-> pso <> nil_id) /\
  (sent Make (setRenderPipelineState pso) = [] <-> pso = nil_id) /\
  (sent Make (setDepthStencilState dss) = [setDepthStencilState dss] <-> dss <> nil_id) /\
  (sent Make (setDepthStencilState dss) = [] <-> dss = nil_id) /\
  (sent Make (setScissorRect r) = [setScissorRect r] <-> r <> mkScissor 0 0 0 0) /\
  (sent Make (setScissorRect r) = [] <-> r = mkScissor 0 0 0 0) /\
  (sent Make (setTriangleFillMode fm) = [setTriangleFillMode fm] <->
     fm <> 18446744073709551615) /\
  sent Make (setTriangleFillMode MTLTriangleFillModeFill) =
    [setTriangleFillMode MTLTriangleFillModeFill] /\
  sent Make (setTriangleFillMode MTLTriangleFillModeLines) =
    [setTriangleFillMode MTLTriangleFillModeLines].
Proof.
  rewrite first_sent_pso, first_sent_dss, first_sent_scissor, !first_sent_fill.
  split; [reflexivity|].
  destruct (forwarded_iff (negb (N.eqb nil_id pso)) (setRenderPipelineState pso)) as [P1 P2].
  destruct (forwarded_iff (negb (N.eqb dss nil_id)) (setDepthStencilState dss)) as [D1 D2].
  destruct (forwarded_iff (scissor_neq (mkScissor 0 0 0 0) r) (setScissorRect r)) as [S1 S2].
  destruct (forwarded_iff (negb (N.eqb 18446744073709551615 fm)) (setTriangleFillMode fm))
    as [F1 _].
  rewrite P1, P2, D1, D2, S1, S2, F1, scissor_neq_false.
  rewrite negb_true_iff, negb_false_iff, negb_true_iff, negb_false_iff, negb_true_iff.
  rewrite !N.eqb_neq, !N.eqb_eq.
  assert (Hne : forall a : MTLScissorRect, scissor_neq (mkScissor 0 0 0 0) a = true <->
                  a <> mkScissor 0 0 0 0).
  { intros a. rewrite <- not_false_iff_true, scissor_neq_false.
    split; intros H E; apply H; congruence. }
  rewrite Hne.
  repeat split; congruence.
Qed.
(** C1, counterexample: on a fresh encoder, setting the scissor rectangle
    (0,0,0,0) or a nil depth/stencil state first forwards nothing. *)
Lemma first_scissor_zero_not_forwarded :
  sent Make (setScissorRect (mkScissor 0 0 0 0)) = [] /\
  sent Make (setDepthStencilState nil_id) = [].
Proof. split; reflexivity. Qed.

(** C2, counterexample: a draw issued after [endEncoding] is forwarded to the
    wrapped encoder. *)
Lemma draw_after_endEncoding_forwarded :
  fCommandEncoder (run Make [endEncoding; drawPrimitives 3 0 4]) =
    [endEncoding; drawPrimitives 3 0 4].
Proof. reflexivity. Qed.

(** C2 (as the code has it): [endEncoding] forwards [endEncoding] and leaves
    the tracked state unchanged; the wrapper keeps no closed state, so every
    later call sends exactly the messages it would have sent without the
    [endEncoding] before it. *)
Theorem endEncoding_changes_nothing_else (e : RenderCommandEncoder) (m : Msg) :
  call e endEncoding =
    {| fCommandEncoder := fCommandEncoder e ++ [endEncoding]; tracked := tracked e |} /\
  call (call e endEncoding) m =
    {| fCommandEncoder := fCommandEncoder e ++ endEncoding :: sent e m;
       tracked := snd (method m (tracked e)) |}.
Proof.
  assert (Hend : call e endEncoding =
    {| fCommandEncoder := fCommandEncoder e ++ [endEncoding]; tracked := tracked e |})
    by reflexivity.
  split; [exact Hend|].
  rewrite Hend. unfold call, sent; cbn [tracked fCommandEncoder].
  destruct (method m (tracked e)) as [out st]. cbn [fst snd].
  rewrite <- app_assoc. reflexivity.
Qed.

(** C5: setting the same pipeline state twice in a row sends nothing the
    second time (one call in all on a fresh encoder); two different objects
    send two calls; and a value set again after a different one is sent
    again, as only the last value is kept.  Pipeline objects are non-nil. *)
Theorem pipeline_cache_last_value (e : RenderCommandEncoder) (p q r : id) :
  p <> nil_id -> q <> nil_id -> p <> q -> r <> q ->
  sent (call e (setRenderPipelineState p)) (setRenderPipelineState p) = [] /\
  count_pipeline_calls (run Make [setRenderPipelineState p; setRenderPipelineState p]) = 1%nat /\
  count_pipeline_calls (run Make [setRenderPipelineState p; setRenderPipelineState q]) = 2%nat /\
  sent (run e [setRenderPipelineState q; setRenderPipelineState r])
       (setRenderPipelineState q) = [setRenderPipelineState q].
Proof.
  intros Hp Hq Hpq Hrq.
  assert (Hset : forall e' v,
    fCurrentRenderPipelineState (tracked (call e' (setRenderPipelineState v))) = v).
  { intros e' v. unfold call; simpl.
    destruct (N.eqb_spec (fCurrentRenderPipelineState (tracked e')) v); simpl; auto. }
  assert (Hsent : forall e' v, sent e' (setRenderPipelineState v) =
    if negb (N.eqb (fCurrentRenderPipelineState (tracked e')) v)
    then [setRenderPipelineState v] else []).
  { intros e' v. unfold sent; simpl. now destruct (negb _). }
  assert (Hlog : forall e' m',
    fCommandEncoder (call e' m') = fCommandEncoder e' ++ sent e' m').
  { intros e' m'. unfold call, sent. now destruct (method m' (tracked e')). }
  assert (Hfirst : sent Make (setRenderPipelineState p) = [setRenderPipelineState p]).
  { rewrite Hsent. cbn [Make initial_tracked tracked fCurrentRenderPipelineState].
    destruct (N.eqb_spec nil_id p); [congruence|]. reflexivity. }
  split; [|split; [|split]].
  - rewrite Hsent, Hset, N.eqb_refl. reflexivity.
  - unfold count_pipeline_calls, run; cbn [fold_left].
    rewrite Hlog, Hlog, Hfirst, Hsent, Hset, N.eqb_refl. reflexivity.
  - unfold count_pipeline_calls, run; cbn [fold_left].
    rewrite Hlog, Hlog, Hfirst, Hsent, Hset.
    destruct (N.eqb_spec p q); [congruence|]. reflexivity.
  - unfold run; cbn [fold_left]. rewrite Hsent, Hset.
    destruct (N.eqb_spec r q); [congruence|]. reflexivity.
Qed.

(** C6: the scissor cache compares the four fields: after a rectangle is
    set, setting a rectangle sends nothing exactly when it is the same
    rectangle and sends it as soon as one field differs; (0,0,100,100) twice
    makes one call, followed by (0,0,50,100) it makes two. *)
Theorem scissor_cache_fieldwise (e : RenderCommandEncoder) (r r' : MTLScissorRect) :
  (sent (call e (setScissorRect r)) (setScissorRect r') = [] <-> r' = r) /\
  (sent (call e (setScissorRect r)) (setScissorRect r') = [setScissorRect r'] <-> r' <> r) /\
  count_scissor_calls (run Make [setScissorRect (mkScissor 0 0 100 100);
                                 setScissorRect (mkScissor 0 0 100 100)]) = 1%nat /\
  count_scissor_calls (run Make [setScissorRect (mkScissor 0 0 100 100);
                                 setScissorRect (mkScissor 0 0 50 100)]) = 2%nat.
Proof.
  assert (Hset : fCurrentScissorRect (tracked (call e (setScissorRect r))) = r).
  { unfold call; simpl.
    destruct (scissor_neq (fCurrentScissorRect (tracked e)) r) eqn:E; simpl; auto.
    apply scissor_neq_false in E. auto. }
  assert (Hsent : forall e' v, sent e' (setScissorRect v) =
    if scissor_neq (fCurrentScissorRect (tracked e')) v then [setScissorRect v] else []).
  { intros e' v. unfold sent, method. now destruct (scissor_neq _ _). }
  rewrite Hsent, Hset.
  destruct (forwarded_iff (scissor_neq r r') (setScissorRect r')) as [S1 S2].
  rewrite S1, S2, scissor_neq_false, <- not_false_iff_true, scissor_neq_false.
  split; [split; congruence|]. split; [split; intros H E; apply H; congruence|].
  split; reflexivity.
Qed.

Lemma pipeline_cache_last_value_witness :
  (1 <> nil_id /\ 2 <> nil_id /\ 1 <> 2 /\ 3 <> 2) /\
  (sent (call Make (setRenderPipelineState 1)) (setRenderPipelineState 1) = [] /\
   count_pipeline_calls (run Make [setRenderPipelineState 1; setRenderPipelineState 1]) = 1%nat /\
   count_pipeline_calls (run Make [setRenderPipelineState 1; setRenderPipelineState 2]) = 2%nat /\
   sent (run Make [setRenderPipelineState 2; setRenderPipelineState 3])
        (setRenderPipelineState 2) = [setRenderPipelineState 2]).
Proof.
  split.
  - unfold nil_id. repeat split; lia.
  - apply (pipeline_cache_last_value Make 1 2 3); unfold nil_id; lia.
Defined.

(** *** Further properties of RenderCommandEncoder *)

Lemma call_log e m : fCommandEncoder (call e m) = fCommandEncoder e ++ sent e m.
Proof. unfold call, sent. now destruct (method m (tracked e)). Qed.

Lemma method_uncached m st : is_cached m = false -> method m st = ([m], st).
Proof. destruct m; cbn [is_cached]; intros H; try discriminate H; reflexivity. Qed.



(** A call sends either nothing or exactly its own message, and only the
    four cached setters ever send nothing. *)
Theorem sends_own_message_or_nothing (e : RenderCommandEncoder) (m : Msg) :
  (sent e m = [] \/ sent e m = [m]) /\ (sent e m = [] -> is_cached m = true).
Proof.
  unfold sent.
  destruct (is_cached m) eqn:Hc.
  - destruct m; try discriminate Hc; cbn [method];
      match goal with |- context [if ?b then _ else _] => destruct b end;
      cbn [fst]; split; auto.
  - rewrite method_uncached by exact Hc. cbn [fst]. split; [auto | discriminate].
Qed.

(** Calling a cached setter a second time with the same value changes
    nothing: neither the messages sent nor the tracked state. *)
Theorem cached_setter_idempotent (e : RenderCommandEncoder) (m : Msg) :
  is_cached m = true -> call (call e m) m = call e m.
Proof.
  intros Hc.
  assert (Hsettle : forall st out st', method m st = (out, st') -> method m st' = ([], st')).
  { intros st out st' E.
    destruct m; try discriminate Hc; cbn [method] in E |- *;
      match type of E with context [if ?b then _ else _] => destruct b eqn:C end;
      injection E as <- <-; cbn [fCurrentRenderPipelineState fCurrentDepthStencilState
        fCurrentScissorRect fCurrentTriangleFillMode];
      rewrite ?N.eqb_refl, ?scissor_neq_refl, ?C; reflexivity. }
  unfold call at 2 3. destruct (method m (tracked e)) as [out st'] eqn:E.
  unfold call; cbn [tracked fCommandEncoder]. rewrite (Hsettle _ _ _ E).
  rewrite app_nil_r. reflexivity.
Qed.

Lemma cached_setter_idempotent_witness :
  is_cached (setScissorRect (mkScissor 0 0 64 64)) = true /\
  call (call Make (setScissorRect (mkScissor 0 0 64 64))) (setScissorRect (mkScissor 0 0 64 64)) =
    call Make (setScissorRect (mkScissor 0 0 64 64)).
Proof. split; [reflexivity | apply cached_setter_idempotent; reflexivity]. Defined.

Lemma last_value_snoc {A} (sel : Msg -> option A) (init : A) l x :
  last_value sel init (l ++ [x]) =
    match sel x with Some v => v | None => last_value sel init l end.
Proof. unfold last_value. rewrite fold_left_app. reflexivity. Qed.

Lemma call_keeps_tracked_of_log e m :
  tracked e = tracked_of_log (fCommandEncoder e) ->
  tracked (call e m) = tracked_of_log (fCommandEncoder (call e m)).
Proof.
  destruct e as [log st]; cbn [tracked fCommandEncoder]; intros ->.
  destruct (is_cached m) eqn:Hc.
  - destruct m; try discriminate Hc; unfold call; cbn [method tracked fCommandEncoder];
      match goal with |- context [if ?b then _ else _] => destruct b end;
      cbn [tracked fCommandEncoder]; rewrite ?app_nil_r; try reflexivity;
      unfold tracked_of_log; rewrite !last_value_snoc; reflexivity.
  - unfold call. rewrite method_uncached by exact Hc. cbn [tracked fCommandEncoder].
    unfold tracked_of_log. rewrite !last_value_snoc.
    destruct m; try discriminate Hc; reflexivity.
Qed.

(** Invariant: on an encoder made by [Make] and driven by any sequence of
    calls, each tracked slot holds the argument of the last message of its
    kind the wrapped encoder received, or its initializer if none. *)
Theorem tracked_matches_sent_log (ms : list Msg) :
  tracked (run Make ms) = tracked_of_log (fCommandEncoder (run Make ms)).
Proof.
  unfold run.
  assert (H : forall e, tracked e = tracked_of_log (fCommandEncoder e) ->
            tracked (fold_left call ms e) =
            tracked_of_log (fCommandEncoder (fold_left call ms e))).
  { induction ms as [|m ms IH]; intros e He; cbn [fold_left]; [exact He|].
    apply IH. apply call_keeps_tracked_of_log. exact He. }
  apply H. reflexivity.
Qed.

(** A call that sends nothing is one whose value is already the last of its
    kind the wrapped encoder received (or the initializer if none): the
    elision never drops a change with respect to what was sent. *)
Theorem elided_call_is_redundant (ms : list Msg) (m : Msg) :
  sent (run Make ms) m = [] ->
  let L := tracked_of_log (fCommandEncoder (run Make ms)) in
  match m with
  | setRenderPipelineState p => fCurrentRenderPipelineState L = p
  | setDepthStencilState d => fCurrentDepthStencilState L = d
  | setScissorRect r => fCurrentScissorRect L = r
  | setTriangleFillMode f => fCurrentTriangleFillMode L = f
  | _ => False
  end.
Proof.
  intros H L. unfold L. rewrite <- tracked_matches_sent_log.
  destruct (is_cached m) eqn:Hc.
  2:{ unfold sent in H. rewrite method_uncached in H by exact Hc. discriminate H. }
  destruct m; try discriminate Hc; unfold sent in H; cbn [method] in H.
  - destruct (N.eqb_spec (fCurrentRenderPipelineState (tracked (run Make ms))) pso);
      [assumption | discriminate H].
  - destruct (N.eqb_spec (fCurrentTriangleFillMode (tracked (run Make ms))) fillMode);
      [assumption | discriminate H].
  - destruct (N.eqb_spec depthStencilState (fCurrentDepthStencilState (tracked (run Make ms))));
      [symmetry; assumption | discriminate H].
  - destruct (scissor_neq (fCurrentScissorRect (tracked (run Make ms))) scissorRect) eqn:E;
      [discriminate H | apply scissor_neq_false; exact E].
Qed.

Lemma elided_call_is_redundant_witness :
  let ms := [setRenderPipelineState 7; drawPrimitives 3 0 6] in
  sent (run Make ms) (setRenderPipelineState 7) = [] /\
  fCurrentRenderPipelineState (tracked_of_log (fCommandEncoder (run Make ms))) = 7.
Proof.
  intros ms.
  assert (H : sent (run Make ms) (setRenderPipelineState 7) = []) by reflexivity.
  split; [exact H | exact (elided_call_is_redundant ms (setRenderPipelineState 7) H)].
Defined.

(** The wrapped encoder's message list only grows, by at most one message
    per call. *)
Theorem log_grows_at_most_one_per_call (e : RenderCommandEncoder) (ms : list Msg) :
  exists suffix, fCommandEncoder (run e ms) = fCommandEncoder e ++ suffix /\
                 (length suffix <= length ms)%nat.
Proof.
  unfold run. revert e; induction ms as [|m ms IH]; intros e; cbn [fold_left].
  - exists []. rewrite app_nil_r. split; [reflexivity | simpl; lia].
  - destruct (IH (call e m)) as [suf [Hs Hl]].
    exists (sent e m ++ suf). rewrite Hs, call_log, app_assoc. split; [reflexivity|].
    destruct (proj1 (sends_own_message_or_nothing e m)) as [E|E]; rewrite E;
      cbn [length app]; lia.
Qed.

End MtlEncoderFacts.
